(** * server.js: team registration, login and post endpoints

    A shallow embedding of the request handlers of [src/server.js].  Each
    Express handler becomes a function from a request to a computation in a
    small state-and-exception monad over the database and the clock; the
    response the handler sends is the value of the computation.

    The collaborators that are not part of [server.js] (the validator
    chain methods the file calls, the signing primitive, the hashing
    primitive, the failure behaviour of the database driver) are gathered
    in one record, [Platform], over which every handler is parametrised. *)

From Stdlib Require Import Ascii.
From stdpp Require Import gmap strings list sorting pretty.

Open Scope string_scope.
Open Scope Z_scope.

(** ** JavaScript values *)

(** The JSON values a request body field can hold, with [JsUndefined] for a
    field that is absent.  Numbers are the integers. *)
Inductive JsValue : Type :=
  | JsUndefined
  | JsNull
  | JsBool (b : bool)
  | JsNumber (n : Z)
  | JsString (s : string).

#[global] Instance JsValue_eq_dec : EqDecision JsValue.
Proof. solve_decision. Defined.

(** [ToBoolean]: the values that count as true in [if (v)], [!v], [a || b]. *)
Definition truthy (v : JsValue) : bool :=
  match v with
  | JsUndefined | JsNull => false
  | JsBool b => b
  | JsNumber n => negb (n =? 0)
  | JsString s => negb (String.eqb s "")
  end.

(** [a || b] *)
Definition js_or (a b : JsValue) : JsValue := if truthy a then a else b.

(** [a !== b] *)
Definition js_strict_neq (a b : JsValue) : bool := negb (bool_decide (a = b)).

(** ** Documents *)

(** A document of the [team] collection. *)
Record TeamDoc : Type := mkTeamDoc {
  team_id : string;
  team_name : JsValue;
  team_city : JsValue;
  team_players : JsValue
}.

(** A document of the [Post] collection; [post_team] is the owner's id. *)
Record Post : Type := mkPost {
  post_id : string;
  post_team : string;
  post_title : JsValue;
  post_body : JsValue;
  post_date : Z
}.

#[global] Instance TeamDoc_eq_dec : EqDecision TeamDoc.
Proof. solve_decision. Defined.
#[global] Instance Post_eq_dec : EqDecision Post.
Proof. solve_decision. Defined.

(** ** Exceptions, the world and the handler monad *)

Inductive Exn : Type :=
  | ReferenceError (name : string)
  | TypeError (msg : string)
  | StoreError (op : string)
  | ConfigError (key : string)
  | JwtError (msg : string).

(** The operations of the database driver a handler awaits. *)
Inductive StoreOp : Type :=
  | OpTeamFindOne (name : JsValue)
  | OpTeamFindById (id : JsValue)
  | OpTeamSave (id : string)
  | OpPostFind
  | OpPostFindById (id : string)
  | OpPostSave (id : string)
  | OpPostRemove (id : string).

(** What a handler can observe and change: the two collections, indexed by
    document id, the clock ([Date.now()], milliseconds), the counter behind
    fresh object ids and salts, and what was written to [console.error]. *)
Record World : Type := mkWorld {
  teams : gmap string TeamDoc;
  posts : gmap string Post;
  now : Z;
  fresh : nat;
  console : list Exn
}.

Definition set_teams (f : gmap string TeamDoc → gmap string TeamDoc) (w : World) : World :=
  mkWorld (f (teams w)) (posts w) (now w) (fresh w) (console w).
Definition set_posts (f : gmap string Post → gmap string Post) (w : World) : World :=
  mkWorld (teams w) (f (posts w)) (now w) (fresh w) (console w).
Definition set_fresh (f : nat → nat) (w : World) : World :=
  mkWorld (teams w) (posts w) (now w) (f (fresh w)) (console w).
Definition log_error (e : Exn) (w : World) : World :=
  mkWorld (teams w) (posts w) (now w) (fresh w) (console w ++ [e]).

(** A computation either throws or returns; either way it leaves a world
    behind, so that an effect performed before a throw is not undone. *)
Definition M (A : Type) : Type := World → (Exn + A) * World.

Definition ret {A} (a : A) : M A := λ w, (inr a, w).
Definition throw {A} (e : Exn) : M A := λ w, (inl e, w).
Definition bind {A B} (m : M A) (k : A → M B) : M B :=
  λ w, match m w with
       | (inl e, w') => (inl e, w')
       | (inr a, w') => k a w'
       end.
Definition try_catch {A} (m : M A) (h : Exn → M A) : M A :=
  λ w, match m w with
       | (inl e, w') => h e w'
       | (inr a, w') => (inr a, w')
       end.
Definition get_world : M World := λ w, (inr w, w).
Definition modify_world (f : World → World) : M unit := λ w, (inr tt, f w).

Notation "'let*' x ':=' m 'in' k" := (bind m (λ x, k))
  (at level 10, x pattern, m at level 100, k at level 200, only parsing).
Notation "m ';;' k" := (bind m (λ _, k))
  (at level 100, k at level 200, right associativity, only parsing).

(** [console.error(error)] *)
Definition console_error (e : Exn) : M unit := modify_world (log_error e).

(** ** Tokens *)

(** The identity a token carries and the auth gate attaches to a request:
    [{ id }]. *)
Record Identity : Type := mkIdentity { identity_id : JsValue }.

(** The claims of a signed token: the payload [{ team: { id } }] with the
    registered claims [iat] and [exp], both in seconds. *)
Record Claims : Type := mkClaims {
  claim_team : Identity;
  iat : Z;
  exp : option Z
}.

Record Token : Type := mkToken { claims : Claims; signature : string }.

#[global] Instance Identity_eq_dec : EqDecision Identity.
Proof. solve_decision. Defined.
#[global] Instance Claims_eq_dec : EqDecision Claims.
Proof. solve_decision. Defined.
#[global] Instance Token_eq_dec : EqDecision Token.
Proof. solve_decision. Defined.

(** ** What server.js takes from outside *)

Record Platform : Type := mkPlatform {
  (** [.isCity()] and [.NotValid()], the two chain methods the file calls
      that express-validator does not document. *)
  isCity : JsValue → bool;
  NotValid : JsValue → bool;
  (** the [id] property of the model imported as [team] *)
  model_id : JsValue;
  (** [config.get('jwtSecret')], absent when the key is not configured *)
  jwtSecret : option string;
  (** the signature of a set of claims under a key *)
  hs256 : string → Claims → string;
  (** the bcrypt digest of a secret under a salt *)
  bcrypt_digest : string → string → string;
  (** the salt [bcrypt.genSalt(rounds)] draws, and the id a new document
      receives, from the world's counter *)
  gen_salt : Z → nat → string;
  gen_oid : nat → string;
  (** the driver operations that reject *)
  store_fault : StoreOp → bool;
  (** [String(n)] for a number beyond the safe integers, where the engine
      prints the shortest digits that read back as the same number, in
      exponent form from 1e21 on *)
  number_text : Z → string;
  (** the length validator.js gives a string that has characters outside
      ASCII, which it counts by character and not by byte *)
  text_length : string → nat
}.

(** The integers every one of which is a number of its own:
    up to [Number.MAX_SAFE_INTEGER] in size. *)
Definition safe_integer (n : Z) : bool := Z.abs n <=? 2 ^ 53 - 1.

(** [String(v)] as express-validator applies it to a field before a
    standard validator runs: absent and null fields become the empty
    string, a safe integer is written in decimal. *)
Definition js_toString (P : Platform) (v : JsValue) : string :=
  match v with
  | JsUndefined | JsNull => ""
  | JsBool true => "true"
  | JsBool false => "false"
  | JsNumber n => if safe_integer n then pretty n else number_text P n
  | JsString s => s
  end.

(** ** Requests and responses *)

(** [req.body] is a JSON object; a missing field reads as [undefined].
    [req.query] holds the query string and [req.headers] the headers, under
    lower-case names. *)
Record Request : Type := mkRequest {
  req_body : gmap string JsValue;
  req_params_id : string;
  req_team : Identity;
  req_query : gmap string JsValue;
  req_headers : gmap string JsValue
}.

Definition field (k : string) (o : gmap string JsValue) : JsValue :=
  default JsUndefined (o !! k).

(** An entry of [errors.array()]. *)
Record ValidationError : Type := mkValidationError {
  err_msg : string;
  err_param : string
}.

Inductive Json : Type :=
  | JText (s : string)
  | JMsg (msg : string)
  | JErrors (errors : list ValidationError)
  | JErrorMsgs (msgs : list string)
  | JToken (token : Token)
  | JPost (p : Post)
  | JPosts (ps : list Post).

Record Response : Type := mkResponse { status : Z; sent : Json }.

(** [res.status(c).json(j)], [res.status(c).send(s)] and [res.json(j)],
    which answers 200. *)
Definition res_status (c : Z) (j : Json) : Response := mkResponse c j.
Definition res_json (j : Json) : Response := mkResponse 200 j.

(** ** Validation chains *)

(** [check(field, message)] followed by one validator. *)
Record Check : Type := mkCheck {
  check_field : string;
  check_message : string;
  check_passes : JsValue → bool
}.

(** [.not().isEmpty()]: the field, as a string, is not empty. *)
Definition not_isEmpty (P : Platform) (v : JsValue) : bool :=
  negb (String.eqb (js_toString P v) "").

(** Strings are held as bytes; a string of ASCII characters has as many
    characters as bytes. *)
Fixpoint is_ascii_text (s : string) : bool :=
  match s with
  | EmptyString => true
  | String c rest => (nat_of_ascii c <? 128)%nat && is_ascii_text rest
  end.

(** The length [isLength] measures. *)
Definition validator_length (P : Platform) (s : string) : nat :=
  if is_ascii_text s then String.length s else text_length P s.

(** [.isLength({ min })]: the field, as a string, has at least [min]
    characters. *)
Definition isLength (P : Platform) (min : nat) (v : JsValue) : bool :=
  bool_decide (min ≤ validator_length P (js_toString P v))%nat.

(** [.exists()]: the field is not [undefined]. *)
Definition exists_ (v : JsValue) : bool := negb (bool_decide (v = JsUndefined)).

(** Where [check(field)] looks for a field, in this order. *)
Inductive Location : Type := InBody | InCookies | InHeaders | InParams | InQuery.

Definition locations : list Location :=
  [InBody; InCookies; InHeaders; InParams; InQuery].

(** The value a field has in one location.  The application installs no
    cookie parser and the routes that validate have no route parameter, so
    those two hold nothing; the names checked are lower-case, as header
    names are. *)
Definition located (req : Request) (k : string) (l : Location) : JsValue :=
  match l with
  | InBody => field k (req_body req)
  | InCookies => JsUndefined
  | InHeaders => field k (req_headers req)
  | InParams => JsUndefined
  | InQuery => field k (req_query req)
  end.

Definition has_value (v : JsValue) : bool := negb (bool_decide (v = JsUndefined)).

(** The instances of a field a chain validates: the value in every
    location that has one and, when none has, the absent value of the
    body. *)
Definition instances (req : Request) (k : string) : list JsValue :=
  match List.filter has_value (located req k <$> locations) with
  | [] => [located req k InBody]
  | found => found
  end.

(** The errors of one chain: one for each instance that fails. *)
Definition run_check (req : Request) (c : Check) : list ValidationError :=
  omap (λ v, if check_passes c v
             then None
             else Some (mkValidationError (check_message c) (check_field c)))
       (instances req (check_field c)).

(** [validationResult(req).array()]: the errors of the chains, in the
    order of the chains. *)
Definition validationResult (checks : list Check) (req : Request) : list ValidationError :=
  concat (run_check req <$> checks).

Definition isEmpty {A} (l : list A) : bool :=
  match l with [] => true | _ => false end.

(** ** The database driver *)

Section Driver.
Variable P : Platform.

(** An awaited driver call rejects when the platform says so and runs
    on the collections otherwise. *)
Definition await_store {A} (op : StoreOp) (run : M A) : M A :=
  if store_fault P op then throw (StoreError "driver") else run.

(** [team.findOne({ name })]: a document with that name, or [null]. *)
Definition Team_findOne (name : JsValue) : M (option TeamDoc) :=
  await_store (OpTeamFindOne name)
    (let* w := get_world in
     ret (snd <$> list_find (λ d, team_name d = name) (map_to_list (teams w)).*2)).

(** [team.findById(id)] *)
Definition Team_findById (i : JsValue) : M (option TeamDoc) :=
  await_store (OpTeamFindById i)
    (let* w := get_world in
     ret (match i with JsString k => teams w !! k | _ => None end)).

(** [new team({ name, city, players })]: a document under a fresh id,
    not yet stored. *)
Definition Team_new (name city players : JsValue) : M TeamDoc :=
  let* w := get_world in
  modify_world (set_fresh S) ;;
  ret (mkTeamDoc (gen_oid P (fresh w)) name city players).

(** [doc.save()] on a team document *)
Definition Team_save (d : TeamDoc) : M unit :=
  await_store (OpTeamSave (team_id d))
    (modify_world (set_teams (insert (team_id d) d))).

(** [Post.find().sort({ date: -1 })]: every post, latest first. *)
Definition date_desc (p q : Post) : Prop := post_date q ≤ post_date p.

#[global] Instance date_desc_dec : RelDecision date_desc.
Proof. intros p q. unfold date_desc. apply _. Defined.

Definition Post_find_sorted : M (list Post) :=
  await_store OpPostFind
    (let* w := get_world in
     ret (merge_sort date_desc (map_to_list (posts w)).*2)).

(** [Post.findById(id)]: the post stored under [id], or [null]. *)
Definition Post_findById (i : string) : M (option Post) :=
  await_store (OpPostFindById i)
    (let* w := get_world in ret (posts w !! i)).

(** [post.save()] *)
Definition Post_save (p : Post) : M unit :=
  await_store (OpPostSave (post_id p))
    (modify_world (set_posts (insert (post_id p) p))).

(** [post.remove()] *)
Definition Post_remove (p : Post) : M unit :=
  await_store (OpPostRemove (post_id p))
    (modify_world (set_posts (delete (post_id p)))).
End Driver.

(** ** Time spans: the string given as [expiresIn] *)

Module Timespan.
Definition is_digit (c : ascii) : bool :=
  let n := nat_of_ascii c in (48 <=? n)%nat && (n <=? 57)%nat.

Definition digit_value (c : ascii) : Z := Z.of_nat (nat_of_ascii c) - 48.

Definition lower (c : ascii) : ascii :=
  let n := nat_of_ascii c in
  if (65 <=? n)%nat && (n <=? 90)%nat then ascii_of_nat (n + 32) else c.

(** Reads decimal digits off the front of a string into [acc] and returns
    the number with what follows the digits. *)
Fixpoint number_from (acc : Z) (s : string) : Z * string :=
  match s with
  | String c rest =>
      if is_digit c then number_from (10 * acc + digit_value c) rest else (acc, s)
  | EmptyString => (acc, s)
  end.

(** The number a string starts with; [None] when it does not start with a
    digit. *)
Definition leading_number (s : string) : option (Z * string) :=
  match s with
  | String c _ => if is_digit c then Some (number_from 0 s) else None
  | EmptyString => None
  end.

Fixpoint skip_spaces (s : string) : string :=
  match s with
  | String " " rest => skip_spaces rest
  | _ => s
  end.

Fixpoint lowercase (s : string) : string :=
  match s with
  | String c rest => String (lower c) (lowercase rest)
  | EmptyString => EmptyString
  end.

Definition second : Z := 1000.
Definition minute : Z := 60 * second.
Definition hour : Z := 60 * minute.
Definition day : Z := 24 * hour.
Definition week : Z := 7 * day.
Definition year : Z := 31557600000.

(** The milliseconds in one unit; no unit means milliseconds. *)
Definition unit_ms (u : string) : option Z :=
  if bool_decide (u ∈ ["years"; "year"; "yrs"; "yr"; "y"]) then Some year
  else if bool_decide (u ∈ ["weeks"; "week"; "w"]) then Some week
  else if bool_decide (u ∈ ["days"; "day"; "d"]) then Some day
  else if bool_decide (u ∈ ["hours"; "hour"; "hrs"; "hr"; "h"]) then Some hour
  else if bool_decide (u ∈ ["minutes"; "minute"; "mins"; "min"; "m"]) then Some minute
  else if bool_decide (u ∈ ["seconds"; "second"; "secs"; "sec"; "s"]) then Some second
  else if bool_decide (u ∈ ["milliseconds"; "millisecond"; "msecs"; "msec"; "ms"; ""])
  then Some 1
  else None.

(** [ms(str)] for a whole number of units: the span in milliseconds,
    [None] for a string that is not a span. *)
Definition ms (str : string) : option Z :=
  match leading_number str with
  | Some (n, rest) =>
      match unit_ms (lowercase (skip_spaces rest)) with
      | Some u => Some (n * u)
      | None => None
      end
  | None => None
  end.
End Timespan.

(** ** Signing *)

Section Jwt.
Variable P : Platform.

(** [jwt.sign(payload, key, { expiresIn }, callback)]: what the callback
    receives.  The token is stamped with the current second and expires
    that many seconds later as the span has. *)
Definition jwt_sign (payload : Identity) (key : string) (expiresIn : string)
    : M (Exn + Token) :=
  let* w := get_world in
  let timestamp := now w `div` 1000 in
  match Timespan.ms expiresIn with
  | None => ret (inl (JwtError "expiresIn should be a number of seconds or string representing a timespan"))
  | Some span =>
      let c := mkClaims payload timestamp (Some (timestamp + span `div` 1000)) in
      ret (inr (mkToken c (hs256 P key c)))
  end.

(** [config.get(key)] throws for a key that is not configured. *)
Definition config_get_jwtSecret : M string :=
  match jwtSecret P with
  | Some k => ret k
  | None => throw (ConfigError "jwtSecret")
  end.

(** [returnToken(user, res)].  The payload reads [team.id], and [team]
    in this function is the module's import, the model. *)
Definition returnToken (user : TeamDoc) : M Response :=
  let payload := mkIdentity (model_id P) in
  let* key := config_get_jwtSecret in
  let* result := jwt_sign payload key "10hr" in
  match result with
  | inl err => throw err
  | inr token => ret (res_json (JToken token))
  end.
End Jwt.

(** Why a token is refused. *)
Inductive TokenFailure : Type := InvalidSignature | Expired.

(** Modelled from the spec: the Token Service's [verify], which lives in
    [middleware/auth] and is not part of [server.js].  It "fails with
    InvalidSignature if the signature does not match the configured key,
    fails with Expired if now > expiry, otherwise returns the embedded
    identity"; [t] is the current time in seconds. *)
Definition jwt_verify (P : Platform) (key : string) (t : Z) (tok : Token)
    : TokenFailure + Identity :=
  if negb (String.eqb (signature tok) (hs256 P key (claims tok))) then inl InvalidSignature
  else match exp (claims tok) with
       | Some e => if e <? t then inl Expired else inr (claim_team (claims tok))
       | None => inr (claim_team (claims tok))
       end.

(** ** Hashing *)

Section Bcrypt.
Variable P : Platform.

(** [bcrypt.genSalt(rounds)] *)
Definition bcrypt_genSalt (rounds : Z) : M string :=
  let* w := get_world in
  modify_world (set_fresh S) ;;
  ret (gen_salt P rounds (fresh w)).

(** [bcrypt.hash(s, salt)]: the salt followed by the digest; anything
    but a string is an illegal argument. *)
Definition bcrypt_hash (s : JsValue) (salt : string) : M string :=
  match s with
  | JsString x => ret (salt +:+ bcrypt_digest P salt x)
  | _ => throw (TypeError "Illegal arguments")
  end.

(** The salt a hash starts with. *)
Definition salt_of (h : string) : string := String.substring 0 29 h.

(** [bcrypt.compare(s, hash)]: hash [s] again under the salt of [hash]
    and compare. *)
Definition bcrypt_compare (s h : JsValue) : M bool :=
  match s, h with
  | JsString x, JsString y =>
      if negb (String.length y =? 60)%nat then ret false
      else ret (String.eqb y (salt_of y +:+ bcrypt_digest P (salt_of y) x))
  | _, _ => throw (TypeError "Illegal arguments")
  end.
End Bcrypt.

(** ** Names in scope *)

(** A [let] or [const] binding is there from the start of its block but
    cannot be read before its declaration has been evaluated. *)
Inductive Binding (A : Type) : Type :=
  | Uninitialised
  | Initialised (a : A).
Arguments Uninitialised {A}.
Arguments Initialised {A} a.

Definition read_binding {A} (name : string) (b : Binding A) : M A :=
  match b with
  | Uninitialised => throw (ReferenceError name)
  | Initialised a => ret a
  end.

(** A name that no scope declares. *)
Definition unresolved {A} (name : string) : M A := throw (ReferenceError name).

(** What a variable called [team] can hold: the model the module imports,
    or the result of a query, a document or [null]. *)
Inductive TeamRef : Type :=
  | TeamModel
  | TeamValue (d : option TeamDoc).

Section Handlers.
Variable P : Platform.

(** [callee.findOne({ name })], [callee.findById(id)] and
    [new callee({ ... })]: only the model has them. *)
Definition findOne_on (callee : TeamRef) (name : JsValue) : M (option TeamDoc) :=
  match callee with
  | TeamModel => Team_findOne P name
  | TeamValue _ => throw (TypeError "team.findOne is not a function")
  end.

Definition new_on (callee : TeamRef) (name city players : JsValue) : M TeamDoc :=
  match callee with
  | TeamModel => Team_new P name city players
  | TeamValue _ => throw (TypeError "team is not a constructor")
  end.

Definition server_error : Response := res_status 500 (JText "Server error").

(** *** POST /api/team *)

Definition team_checks : list Check :=
  [ mkCheck "name" "Please enter your name of soccer team" (not_isEmpty P);
    mkCheck "city" "Please enter city of soccer team" (isCity P);
    mkCheck "players" "Please enter number of players, must be at least 13"
      (isLength P 13) ].

Definition post_api_team (req : Request) : M Response :=
  let errors := validationResult team_checks req in
  if negb (isEmpty errors) then ret (res_status 422 (JErrors errors))
  else
    let name := field "name" (req_body req) in
    let city := field "city" (req_body req) in
    let players := field "players" (req_body req) in
    try_catch
      ((* let team = await team.findOne({ name: name }) *)
       let team : Binding TeamRef := Uninitialised in
       let* callee := read_binding "team" team in
       let* found := findOne_on callee name in
       let team := Initialised (TeamValue found) in
       if bool_decide (is_Some found)
       then ret (res_status 400 (JErrorMsgs ["try again"]))
       else
         (* team = new team({ ... }) *)
         let* callee := read_binding "team" team in
         let* created := new_on callee name city players in
         let* salt := bcrypt_genSalt P 10 in
         (* user.players = await bcrypt.hash(players, salt) *)
         let* user := unresolved "user" in
         let* hashed := bcrypt_hash P players salt in
         let user := mkTeamDoc (team_id user) (team_name user) (team_city user)
                       (JsString hashed) in
         Team_save P created ;;
         returnToken P user)
      (λ error, ret server_error).

(** *** POST /api/registration *)

Definition registration_checks : list Check :=
  [ mkCheck "name" "Please enter other name , it already exist" exists_;
    mkCheck "players" "Eenter valid number of players, min 13 " (NotValid P) ].

Definition post_api_registration (req : Request) : M Response :=
  let errors := validationResult registration_checks req in
  if negb (isEmpty errors) then ret (res_status 422 (JErrors errors))
  else
    let name := field "name" (req_body req) in
    let players := field "players" (req_body req) in
    try_catch
      ((* let team = await team.findOne({ name: name }) *)
       let team : Binding TeamRef := Uninitialised in
       let* callee := read_binding "team" team in
       let* found := findOne_on callee name in
       if negb (bool_decide (is_Some found))
       then ret (res_status 400 (JErrorMsgs ["Invalid team name"]))
       else
         (* const match = await bcrypt.compare(players, user.players) *)
         let* user := unresolved "user" in
         let* matched := bcrypt_compare P players (team_players user) in
         if negb matched
         then ret (res_status 400 (JErrorMsgs ["Invalid number of players"]))
         else returnToken P user)
      (λ error, ret server_error).

(** *** The post endpoints, behind the auth gate *)

Definition post_not_found : Response := res_status 404 (JMsg "Post not found").

(** What the [catch] blocks of the post endpoints do. *)
Definition log_and_fail (error : Exn) : M Response :=
  console_error error ;; ret server_error.

(** GET /api/posts *)
Definition get_api_posts (req : Request) : M Response :=
  try_catch
    (let* posts := Post_find_sorted P in
     ret (res_json (JPosts posts)))
    log_and_fail.

(** GET /api/posts/:id *)
Definition get_api_posts_id (req : Request) : M Response :=
  try_catch
    (let* post := Post_findById P (req_params_id req) in
     match post with
     | None => ret post_not_found
     | Some post => ret (res_json (JPost post))
     end)
    log_and_fail.

(** DELETE /api/posts/:id *)
Definition delete_api_posts_id (req : Request) : M Response :=
  try_catch
    (let* post := Post_findById P (req_params_id req) in
     match post with
     | None => ret post_not_found
     | Some post =>
         if js_strict_neq (JsString (post_team post)) (identity_id (req_team req))
         then ret (res_status 401 (JMsg "team not authorized"))
         else
           Post_remove P post ;;
           ret (res_json (JMsg "Post removed"))
     end)
    log_and_fail.

(** PUT /api/posts/:id *)
Definition put_api_posts_id (req : Request) : M Response :=
  try_catch
    (let title := field "title" (req_body req) in
     let body := field "body" (req_body req) in
     let* post := Post_findById P (req_params_id req) in
     match post with
     | None => ret post_not_found
     | Some post =>
         if js_strict_neq (JsString (post_team post)) (identity_id (req_team req))
         then ret (res_status 401 (JMsg "User not authorized"))
         else
           let post := mkPost (post_id post) (post_team post)
                         (js_or title (post_title post))
                         (js_or body (post_body post))
                         (post_date post) in
           Post_save P post ;;
           ret (res_json (JPost post))
     end)
    log_and_fail.
End Handlers.

(** ** The endpoints that look up the requesting team *)

(** What GET /api/auth sends: a team document (or [null]) as JSON, or a
    text. *)
Inductive TeamJson : Type :=
  | JTeam (d : option TeamDoc)
  | JTeamText (s : string).

Section TeamLookups.
Variable P : Platform.

(** [callee.findById(id)]: only the model has it. *)
Definition findById_on (callee : TeamRef) (i : JsValue) : M (option TeamDoc) :=
  match callee with
  | TeamModel => Team_findById P i
  | TeamValue _ => throw (TypeError "team.findById is not a function")
  end.

(** [team.id] on the result of a query; [null] has no properties. *)
Definition id_of (found : option TeamDoc) : M string :=
  match found with
  | Some d => ret (team_id d)
  | None => throw (TypeError "Cannot read properties of null")
  end.

(** [new Post({ team, title, body })]: a post under a fresh id, dated by
    the clock, not yet stored. *)
Definition Post_new (owner : string) (title body : JsValue) : M Post :=
  let* w := get_world in
  modify_world (set_fresh S) ;;
  ret (mkPost (gen_oid P (fresh w)) owner title body (now w)).

(** *** GET /api/auth *)

Definition get_api_auth (req : Request) : M (Z * TeamJson) :=
  try_catch
    ((* const team = await team.findById(req.team.id) *)
     let team : Binding TeamRef := Uninitialised in
     let* callee := read_binding "team" team in
     let* found := findById_on callee (identity_id (req_team req)) in
     ret (200, JTeam found))
    (λ error, ret (500, JTeamText "Unknown server error")).

(** *** POST /api/posts *)

Definition post_checks : list Check :=
  [ mkCheck "title" "Title text is required" (not_isEmpty P);
    mkCheck "body" "Body text is required" (not_isEmpty P) ].

Definition post_api_posts (req : Request) : M Response :=
  let errors := validationResult post_checks req in
  if negb (isEmpty errors) then ret (res_status 400 (JErrors errors))
  else
    let title := field "title" (req_body req) in
    let body := field "body" (req_body req) in
    try_catch
      ((* const team = await team.findById(req.team.id) *)
       let team : Binding TeamRef := Uninitialised in
       let* callee := read_binding "team" team in
       let* found := findById_on callee (identity_id (req_team req)) in
       (* const post = new Post({ team: team.id, title: title, body: body }) *)
       let* owner := id_of found in
       let* post := Post_new owner title body in
       Post_save P post ;;
       ret (res_json (JPost post)))
      log_and_fail.

(** *** The routing table *)

(** The endpoints the file registers that touch the database. *)
Inductive Route : Type :=
  | POST_api_team
  | GET_api_auth
  | POST_api_registration
  | POST_api_posts
  | GET_api_posts
  | GET_api_posts_id
  | DELETE_api_posts_id
  | PUT_api_posts_id.

(** The world a request leaves behind. *)
Definition serve (r : Route) (req : Request) (w : World) : World :=
  match r with
  | POST_api_team => snd (post_api_team P req w)
  | GET_api_auth => snd (get_api_auth req w)
  | POST_api_registration => snd (post_api_registration P req w)
  | POST_api_posts => snd (post_api_posts req w)
  | GET_api_posts => snd (get_api_posts P req w)
  | GET_api_posts_id => snd (get_api_posts_id P req w)
  | DELETE_api_posts_id => snd (delete_api_posts_id P req w)
  | PUT_api_posts_id => snd (put_api_posts_id P req w)
  end.

(** The world after a sequence of requests, served one after the other. *)
Fixpoint serve_all (requests : list (Route * Request)) (w : World) : World :=
  match requests with
  | [] => w
  | (r, req) :: rest => serve_all rest (serve r req w)
  end.
End TeamLookups.

(** ** A concrete platform and database, for running the handlers *)

Module Sample.
(** A number in exponent form: the digits without their trailing zeros,
    a point after the first, and the power of ten. *)
Fixpoint strip_zeros (s : string) : string :=
  match s with
  | EmptyString => EmptyString
  | String c rest =>
      match strip_zeros rest with
      | EmptyString => if Ascii.eqb c "0" then EmptyString else String c EmptyString
      | kept => String c kept
      end
  end.

Definition exponent_form (n : Z) : string :=
  let digits := pretty (Z.abs n) in
  let power := pretty (Z.of_nat (String.length digits - 1)) in
  let sign := if n <? 0 then "-" else "" in
  match strip_zeros digits with
  | EmptyString => "0"
  | String d EmptyString => sign +:+ String d ("e+" +:+ power)
  | String d more => sign +:+ String d ("." +:+ more +:+ "e+" +:+ power)
  end.

(** [String(n)] past the safe integers: decimal below 1e21, exponent form
    from there on. *)
Definition engine_number_text (n : Z) : string :=
  if Z.abs n <? 10 ^ 21 then pretty n else exponent_form n.

(** The characters of a string held as UTF-8: the bytes that do not
    continue a character. *)
Fixpoint utf8_characters (s : string) : nat :=
  match s with
  | EmptyString => 0
  | String c rest =>
      let b := nat_of_ascii c in
      ((if (128 <=? b) && (b <? 192) then 0 else 1) + utf8_characters rest)%nat
  end.

Definition quiet : Platform :=
  mkPlatform (λ _, true) (λ _, true) JsUndefined (Some "s3cret")
    (λ key c, key +:+ ":" +:+ pretty (iat c))
    (λ salt s, s) (λ _ n, pretty n) (λ n, pretty n) (λ _, false)
    engine_number_text utf8_characters.

Definition reds : string := "team-reds".
Definition blues : string := "team-blues".

Definition p1 : Post := mkPost "p1" reds (JsString "t") (JsString "b") 100.
Definition p2 : Post := mkPost "p2" blues (JsString "hello") (JsString "world") 300.
Definition p3 : Post := mkPost "p3" reds (JsString "again") (JsString "text") 200.

Definition db : World :=
  mkWorld ∅ (<["p1" := p1]> (<["p2" := p2]> (<["p3" := p3]> ∅))) 1700000000000 0 [].

Definition as_team (t : string) (post : string) (b : gmap string JsValue) : Request :=
  mkRequest b post (mkIdentity (JsString t)) ∅ ∅.
End Sample.

(** * Properties *)

(** ** The driver *)

Section DriverFacts.
Variable P : Platform.

Lemma Post_findById_run i w :
  Post_findById P i w =
  (if store_fault P (OpPostFindById i) then inl (StoreError "driver")
   else inr (posts w !! i), w).
Proof.
  unfold Post_findById, await_store.
  destruct (store_fault P (OpPostFindById i)); reflexivity.
Qed.

(** A lookup reads; it leaves the world as it found it. *)
Lemma Post_findById_resolves i w lookup :
  fst (Post_findById P i w) = inr lookup →
  Post_findById P i w = (inr lookup, w) ∧ posts w !! i = lookup.
Proof.
  rewrite Post_findById_run.
  destruct (store_fault P (OpPostFindById i)); simpl; intros H.
  - discriminate H.
  - injection H as <-. done.
Qed.

Lemma strict_neq_true (a b : JsValue) : b ≠ a → js_strict_neq a b = true.
Proof.
  intros H. unfold js_strict_neq.
  rewrite bool_decide_eq_false_2; [reflexivity | congruence].
Qed.
End DriverFacts.

(** Runs a handler whose lookup is known: the lookup is replaced by its
    result and the monad is computed away. *)
Ltac run_lookup H :=
  unfold delete_api_posts_id, put_api_posts_id, get_api_posts_id, try_catch, bind;
  cbn [req_params_id req_body req_team];
  rewrite H; simpl.

(** ** Deleting and updating posts: who may, and what if there is none *)

Section Mutation.
Variable P : Platform.

(** C1. A delete or update request, carrying the identity the gate
    attached, is refused when the post id does not resolve (404, "Post not
    found") and when the post exists and the identity's id differs from
    the post's owner (401; "team not authorized" on delete, "User not
    authorized" on update).  Either way the database is left untouched. *)
Theorem mutation_refused (req : Request) (w : World) (lookup : option Post) :
  fst (Post_findById P (req_params_id req) w) = inr lookup →
  (∀ post, lookup = Some post →
           identity_id (req_team req) ≠ JsString (post_team post)) →
  (lookup = None →
     delete_api_posts_id P req w = (inr (res_status 404 (JMsg "Post not found")), w) ∧
     put_api_posts_id P req w = (inr (res_status 404 (JMsg "Post not found")), w)) ∧
  (∀ post, lookup = Some post →
     delete_api_posts_id P req w = (inr (res_status 401 (JMsg "team not authorized")), w) ∧
     put_api_posts_id P req w = (inr (res_status 401 (JMsg "User not authorized")), w)).
Proof.
  intros Hfind Hother.
  apply Post_findById_resolves in Hfind as [Hrun _].
  split.
  - intros ->. split; run_lookup Hrun; reflexivity.
  - intros post ->.
    pose proof (strict_neq_true _ _ (Hother post eq_refl)) as Hneq.
    split; run_lookup Hrun; rewrite Hneq; reflexivity.
Qed.

(** C9. The lookup comes first: when the post id does not resolve, delete
    and update answer 404 "Post not found" whoever asks, without touching
    the database; the requester's identity plays no part. *)
Theorem not_found_before_ownership (req : Request) (w : World) (who : Identity) :
  fst (Post_findById P (req_params_id req) w) = inr None →
  let asked := mkRequest (req_body req) (req_params_id req) who
               (req_query req) (req_headers req) in
  delete_api_posts_id P asked w = (inr (res_status 404 (JMsg "Post not found")), w) ∧
  put_api_posts_id P asked w = (inr (res_status 404 (JMsg "Post not found")), w).
Proof.
  intros Hfind asked. subst asked.
  apply Post_findById_resolves in Hfind as [Hrun _].
  split; run_lookup Hrun; reflexivity.
Qed.
End Mutation.

(** ** Reading posts *)

Section Reads.
Variable P : Platform.

#[local] Instance date_desc_total : Total date_desc.
Proof. intros p q. unfold date_desc. lia. Qed.

#[local] Instance date_desc_trans : Transitive date_desc.
Proof. intros p q r. unfold date_desc. lia. Qed.

Lemma get_api_posts_run req w :
  store_fault P OpPostFind = false →
  get_api_posts P req w =
  (inr (res_json (JPosts (merge_sort date_desc (map_to_list (posts w)).*2))), w).
Proof.
  intros H. unfold get_api_posts, try_catch, bind, Post_find_sorted, await_store.
  rewrite H. reflexivity.
Qed.

(** C10. Reads make no ownership check.  Whoever the gate let through,
    GET /api/posts answers, when the driver returns the collection, with a
    list that holds exactly the stored posts, latest first (the empty list
    for an empty collection), and GET /api/posts/:id answers with the post
    the id resolves to, be it the requester's or not. *)
Theorem reads_ignore_ownership (req : Request) (w : World) (who : Identity) :
  let asked := mkRequest (req_body req) (req_params_id req) who
                 (req_query req) (req_headers req) in
  (store_fault P OpPostFind = false →
   ∃ listed,
     get_api_posts P asked w = (inr (res_json (JPosts listed)), w) ∧
     listed ≡ₚ (map_to_list (posts w)).*2 ∧
     StronglySorted date_desc listed) ∧
  (∀ post,
     fst (Post_findById P (req_params_id req) w) = inr (Some post) →
     get_api_posts_id P asked w = (inr (res_json (JPost post)), w)).
Proof.
  intros asked. subst asked. split.
  - intros Hup. eexists. split; [apply get_api_posts_run, Hup |]. split.
    + apply merge_sort_Permutation.
    + apply StronglySorted_merge_sort; apply _.
  - intros post Hfind.
    apply Post_findById_resolves in Hfind as [Hrun _].
    run_lookup Hrun. reflexivity.
Qed.

(** On an empty collection the list is empty, and the answer is still
    200. *)
Lemma get_api_posts_empty req w :
  store_fault P OpPostFind = false →
  posts w = ∅ →
  get_api_posts P req w = (inr (res_json (JPosts [])), w).
Proof.
  intros Hup Hempty. rewrite (get_api_posts_run req w Hup), Hempty.
  rewrite map_to_list_empty. reflexivity.
Qed.
End Reads.

(** ** What an update may change *)

(** Every post is stored under its own id. *)
Definition wf_posts (w : World) : Prop :=
  map_Forall (λ k p, post_id p = k) (posts w).

(** The part of a post an update request must leave alone: its id, owner
    and date always, its title and its body when the request omits them. *)
Definition kept (req : Request) (p p' : Post) : Prop :=
  post_id p' = post_id p ∧
  post_team p' = post_team p ∧
  post_date p' = post_date p ∧
  (field "title" (req_body req) = JsUndefined → post_title p' = post_title p) ∧
  (field "body" (req_body req) = JsUndefined → post_body p' = post_body p).

Section Update.
Variable P : Platform.

Lemma kept_refl req p : kept req p p.
Proof. repeat split. Qed.

(** The post an update writes back. *)
Definition updated (req : Request) (post : Post) : Post :=
  mkPost (post_id post) (post_team post)
    (js_or (field "title" (req_body req)) (post_title post))
    (js_or (field "body" (req_body req)) (post_body post))
    (post_date post).

Lemma kept_updated req p : kept req p (updated req p).
Proof.
  unfold kept, updated; simpl.
  repeat split; intros ->; reflexivity.
Qed.

(** An update either leaves both collections as they are or writes the
    updated post over the one it looked up. *)
Lemma put_api_posts_id_world req w :
  let w' := snd (put_api_posts_id P req w) in
  teams w' = teams w ∧
  (posts w' = posts w ∨
   ∃ post, posts w !! req_params_id req = Some post ∧
           posts w' = <[post_id post := updated req post]> (posts w)).
Proof.
  unfold put_api_posts_id, try_catch, bind.
  rewrite Post_findById_run.
  destruct (store_fault P (OpPostFindById (req_params_id req))); simpl; [auto |].
  destruct (posts w !! req_params_id req) as [post|] eqn:Hpost; simpl; [| auto].
  destruct (js_strict_neq _ _); simpl; [auto |].
  unfold Post_save, await_store; simpl.
  destruct (store_fault P (OpPostSave (post_id post))); simpl; [auto |].
  split; [reflexivity |]. right. exists post. auto.
Qed.

(** Updating and deleting keep every post under its own id. *)
Lemma put_api_posts_id_wf req w :
  wf_posts w → wf_posts (snd (put_api_posts_id P req w)).
Proof.
  intros Hwf.
  destruct (put_api_posts_id_world req w) as [_ [Hsame | (post & Hpost & Hnew)]];
    unfold wf_posts in *.
  - rewrite Hsame. exact Hwf.
  - rewrite Hnew. apply map_Forall_insert_2; [reflexivity | exact Hwf].
Qed.

Lemma delete_api_posts_id_wf req w :
  wf_posts w → wf_posts (snd (delete_api_posts_id P req w)).
Proof.
  intros Hwf. unfold delete_api_posts_id, try_catch, bind.
  rewrite Post_findById_run.
  destruct (store_fault P (OpPostFindById (req_params_id req))); simpl; [exact Hwf |].
  destruct (posts w !! req_params_id req) as [post|]; simpl; [| exact Hwf].
  destruct (js_strict_neq _ _); simpl; [exact Hwf |].
  unfold Post_remove, await_store.
  destruct (store_fault P (OpPostRemove (post_id post))); simpl; [exact Hwf |].
  apply map_Forall_delete, Hwf.
Qed.

(** C8. An update request leaves every stored post's id, owner and date
    as they were, adds and removes no post, leaves the teams alone, and,
    when it omits the title (the body), leaves every title (body) as it
    was. *)
Theorem update_frame (req : Request) (w : World) :
  wf_posts w →
  let w' := snd (put_api_posts_id P req w) in
  teams w' = teams w ∧
  ∀ k, option_Forall2 (kept req) (posts w !! k) (posts w' !! k).
Proof.
  intros Hwf w'.
  destruct (put_api_posts_id_world req w) as [Hteams Hposts].
  fold w' in Hteams, Hposts.
  split; [exact Hteams |].
  intros k.
  assert (Hsame : option_Forall2 (kept req) (posts w !! k) (posts w !! k)).
  { destruct (posts w !! k); constructor. apply kept_refl. }
  destruct Hposts as [-> | (post & Hpost & ->)]; [exact Hsame |].
  pose proof (Hwf _ _ Hpost) as Hid. simpl in Hid.
  destruct (decide (post_id post = k)) as [Hk | Hk].
  - rewrite <- Hk, lookup_insert_eq. rewrite Hid, Hpost.
    constructor. apply kept_updated.
  - rewrite lookup_insert_ne by exact Hk. exact Hsame.
Qed.
End Update.

(** ** Issued tokens *)

Section Issue.
Variable P : Platform.

Lemma returnToken_run user w key :
  jwtSecret P = Some key →
  returnToken P user w =
  let c := mkClaims (mkIdentity (model_id P)) (now w `div` 1000)
             (Some (now w `div` 1000 + 36000)) in
  (inr (res_json (JToken (mkToken c (hs256 P key c)))), w).
Proof.
  intros Hkey. unfold returnToken, config_get_jwtSecret, bind.
  rewrite Hkey. reflexivity.
Qed.

(** The payload never reads the user it is issued for. *)
Lemma returnToken_ignores_user user1 user2 w :
  returnToken P user1 w = returnToken P user2 w.
Proof. reflexivity. Qed.

(** C7. With a signing key configured, [returnToken] answers with a token
    issued at the current second whose expiry is that second plus ten
    hours. *)
Theorem token_expiry (user : TeamDoc) (w : World) (key : string) :
  jwtSecret P = Some key →
  ∃ tok,
    returnToken P user w = (inr (res_json (JToken tok)), w) ∧
    iat (claims tok) = now w `div` 1000 ∧
    exp (claims tok) = Some (iat (claims tok) + 10 * 60 * 60).
Proof.
  intros Hkey. rewrite (returnToken_run user w key Hkey).
  eexists. split; [reflexivity |]. simpl. split; reflexivity.
Qed.

(** Verifying a fresh token gives back what the payload held: the id of
    the model. *)
Lemma verify_issued user w key :
  jwtSecret P = Some key →
  ∃ tok,
    returnToken P user w = (inr (res_json (JToken tok)), w) ∧
    jwt_verify P key (now w `div` 1000) tok = inr (mkIdentity (model_id P)).
Proof.
  intros Hkey. rewrite (returnToken_run user w key Hkey).
  eexists. split; [reflexivity |].
  unfold jwt_verify; simpl. rewrite String.eqb_refl; simpl.
  destruct (Z.ltb_spec (now w `div` 1000 + 36000) (now w `div` 1000)); [lia | reflexivity].
Qed.
End Issue.

(** ** Validation *)

Section ValidationFacts.
Variable P : Platform.

(** A field the body has is one of the instances a chain validates,
    whatever the query string and the headers hold. *)
Lemma body_instance req k :
  field k (req_body req) ≠ JsUndefined →
  field k (req_body req) ∈ instances req k.
Proof.
  intros Hbody. unfold instances, locations.
  cbn [fmap list_fmap located List.filter].
  unfold has_value at 1. rewrite bool_decide_eq_false_2 by exact Hbody.
  cbn [negb]. apply list_elem_of_here.
Qed.

(** A field that no location has is validated once, as absent. *)
Lemma absent_instance req k :
  field k (req_body req) = JsUndefined →
  field k (req_query req) = JsUndefined →
  field k (req_headers req) = JsUndefined →
  instances req k = [JsUndefined].
Proof.
  intros Hbody Hquery Hheaders. unfold instances, locations.
  cbn [fmap list_fmap located List.filter].
  rewrite Hbody, Hquery, Hheaders. reflexivity.
Qed.

(** An instance that fails its chain leaves the chain's error in the
    result. *)
Lemma failing_instance req checks c v :
  c ∈ checks →
  v ∈ instances req (check_field c) →
  check_passes c v = false →
  mkValidationError (check_message c) (check_field c) ∈ validationResult checks req.
Proof.
  intros Hc Hv Hfail. unfold validationResult.
  apply list_elem_of_In, in_concat.
  exists (run_check req c). split.
  - apply list_elem_of_In, list_elem_of_fmap. exists c. auto.
  - apply list_elem_of_In. unfold run_check. apply list_elem_of_omap.
    exists v. split; [exact Hv |]. rewrite Hfail. reflexivity.
Qed.

(** Registration answers 422 as soon as there is an error. *)
Lemma post_api_team_rejects req w e :
  e ∈ validationResult (team_checks P) req →
  post_api_team P req w =
    (inr (res_status 422 (JErrors (validationResult (team_checks P) req))), w).
Proof.
  intros He. unfold post_api_team.
  destruct (validationResult (team_checks P) req) as [| e' rest].
  - inversion He.
  - reflexivity.
Qed.

Lemma post_api_registration_rejects req w e :
  e ∈ validationResult (registration_checks P) req →
  post_api_registration P req w =
    (inr (res_status 422 (JErrors (validationResult (registration_checks P) req))), w).
Proof.
  intros He. unfold post_api_registration.
  destruct (validationResult (registration_checks P) req) as [| e' rest].
  - inversion He.
  - reflexivity.
Qed.
End ValidationFacts.

(** ** Registration and login *)

Section Accounts.
Variable P : Platform.

(** The first statement of the [try] block reads [team] inside the
    declaration of a block-scoped [team]. *)
Lemma own_initialiser_throws name w :
  (let* callee := read_binding "team" (Uninitialised : Binding TeamRef) in
   findOne_on P callee name) w = (inl (ReferenceError "team"), w).
Proof. reflexivity. Qed.

(** C2. Registration never gets as far as the database.  A request that
    fails validation is answered 422 with the errors, every other request
    is answered 500 "Server error"; no team is stored and no token is
    returned, so registering the same name again gives the same answer
    as the first time and never a conflict. *)
Theorem registration_never_succeeds (req : Request) (w : World) :
  let answer :=
    let errors := validationResult (team_checks P) req in
    if isEmpty errors then res_status 500 (JText "Server error")
    else res_status 422 (JErrors errors) in
  let first := post_api_team P req w in
  let second := post_api_team P req (snd first) in
  first = (inr answer, w) ∧ second = (inr answer, w).
Proof.
  assert (Hrun : ∀ w', post_api_team P req w' =
            (inr (if isEmpty (validationResult (team_checks P) req)
                  then res_status 500 (JText "Server error")
                  else res_status 422 (JErrors (validationResult (team_checks P) req))),
             w')).
  { intros w'. unfold post_api_team.
    destruct (validationResult (team_checks P) req); reflexivity. }
  simpl. rewrite Hrun. simpl. rewrite Hrun. split; reflexivity.
Qed.

(** C3. Login never consults the database either: a request that fails
    validation is answered 422, every other request 500 "Server error",
    whether the name is known or not and whatever the secret. *)
Theorem login_never_succeeds (req : Request) (w : World) :
  post_api_registration P req w =
  (inr (let errors := validationResult (registration_checks P) req in
        if isEmpty errors then res_status 500 (JText "Server error")
        else res_status 422 (JErrors errors)),
   w).
Proof.
  unfold post_api_registration.
  destruct (validationResult (registration_checks P) req); reflexivity.
Qed.

(** The body of the scenario's registration: team "Reds", 13 players. *)
Definition reds_13 : gmap string JsValue :=
  <["name" := JsString "Reds"]>
    (<["city" := JsString "Madison"]> {["players" := JsNumber 13]}).

Lemma reds_13_fields :
  field "name" reds_13 = JsString "Reds" ∧
  field "city" reds_13 = JsString "Madison" ∧
  field "players" reds_13 = JsNumber 13.
Proof. repeat split; reflexivity. Qed.

(** C4. Registering "Reds" with 13 players does not pass validation:
    [isLength({ min: 13 })] measures the field as a string, and "13" has
    two characters.  The answer is 422 and lists the players message. *)
Theorem register_reds_13_rejected (who : Identity) (w : World)
    (query headers : gmap string JsValue) :
  ∃ errors,
    post_api_team P (mkRequest reds_13 "" who query headers) w =
      (inr (res_status 422 (JErrors errors)), w) ∧
    mkValidationError "Please enter number of players, must be at least 13"
      "players" ∈ errors.
Proof.
  destruct reds_13_fields as (_ & _ & Hplayers).
  set (req := mkRequest reds_13 "" who query headers).
  set (players := mkCheck "players"
         "Please enter number of players, must be at least 13" (isLength P 13)).
  assert (Herror : mkValidationError (check_message players) (check_field players)
                     ∈ validationResult (team_checks P) req).
  { apply (failing_instance req (team_checks P) players (JsNumber 13)).
    - unfold team_checks. set_solver.
    - rewrite <- Hplayers. apply (body_instance req "players").
      cbn [req_body req]. rewrite Hplayers. discriminate.
    - reflexivity. }
  eexists. split; [exact (post_api_team_rejects P req w _ Herror) | exact Herror].
Qed.
End Accounts.

(** ** Hash and compare *)

Lemma substring_prefix (a b : string) :
  String.substring 0 (String.length a) (a +:+ b) = a.
Proof.
  induction a as [| c a IH]; simpl.
  - destruct b; reflexivity.
  - rewrite IH. reflexivity.
Qed.

(** Comparing a secret with a full-length hash made from that secret
    succeeds, whatever the digest is. *)
Lemma bcrypt_compare_hash (P : Platform) (s salt : string) (w : World) :
  String.length salt = 29%nat →
  String.length (salt +:+ bcrypt_digest P salt s) = 60%nat →
  bcrypt_compare P (JsString s) (JsString (salt +:+ bcrypt_digest P salt s)) w
  = (inr true, w).
Proof.
  intros Hsalt Hlen.
  assert (Hsub : String.substring 0 29 (salt +:+ bcrypt_digest P salt s) = salt).
  { rewrite <- Hsalt. apply substring_prefix. }
  unfold bcrypt_compare, salt_of.
  rewrite Hlen, Nat.eqb_refl, Hsub, String.eqb_refl. reflexivity.
Qed.

(** ** The scenario, run *)

Module Scenario.
Import Sample.

Definition reds_team : TeamDoc :=
  mkTeamDoc "64f0c0ffee" (JsString "Reds") (JsString "Madison") (JsString "hash").

(** C6. The token issued for team 64f0c0ffee verifies, at the moment it
    is issued and under the key that signed it, to an identity without an
    id: the payload was filled from the model, not from the team. *)
Theorem issued_token_lacks_identity :
  ∃ tok,
    returnToken quiet reds_team db = (inr (res_json (JToken tok)), db) ∧
    jwt_verify quiet "s3cret" (now db `div` 1000) tok = inr (mkIdentity JsUndefined) ∧
    mkIdentity JsUndefined ≠ mkIdentity (JsString (team_id reds_team)).
Proof.
  eexists. split; [reflexivity |]. split; [reflexivity | discriminate].
Qed.

(** The owner's requests go through: the post is removed, or its body is
    replaced and its title kept. *)
Example owner_deletes :
  fst (delete_api_posts_id quiet (as_team reds "p1" ∅) db)
    = inr (res_json (JMsg "Post removed")) ∧
  posts (snd (delete_api_posts_id quiet (as_team reds "p1" ∅) db)) !! "p1" = None.
Proof. split; reflexivity. Qed.

Example owner_updates :
  fst (put_api_posts_id quiet (as_team reds "p1" {["body" := JsString "new"]}) db)
    = inr (res_json (JPost (mkPost "p1" reds (JsString "t") (JsString "new") 100))).
Proof. reflexivity. Qed.

Lemma mutation_refused_witness :
  delete_api_posts_id quiet (as_team blues "p1" ∅) db
    = (inr (res_status 401 (JMsg "team not authorized")), db) ∧
  put_api_posts_id quiet (as_team blues "p1" ∅) db
    = (inr (res_status 401 (JMsg "User not authorized")), db).
Proof.
  refine (proj2 (mutation_refused quiet (as_team blues "p1" ∅) db (Some p1) _ _)
            p1 eq_refl).
  - reflexivity.
  - intros post [= <-]. discriminate.
Defined.

Lemma not_found_before_ownership_witness :
  delete_api_posts_id quiet (as_team reds "p9" ∅) db
    = (inr (res_status 404 (JMsg "Post not found")), db) ∧
  put_api_posts_id quiet (as_team reds "p9" ∅) db
    = (inr (res_status 404 (JMsg "Post not found")), db).
Proof.
  apply (not_found_before_ownership quiet (as_team blues "p9" ∅) db
           (mkIdentity (JsString reds))).
  reflexivity.
Defined.

Lemma reads_ignore_ownership_witness :
  (∃ listed,
      get_api_posts quiet (as_team blues "p1" ∅) db
        = (inr (res_json (JPosts listed)), db) ∧
      listed ≡ₚ (map_to_list (posts db)).*2 ∧
      StronglySorted date_desc listed) ∧
  get_api_posts_id quiet (as_team blues "p1" ∅) db = (inr (res_json (JPost p1)), db).
Proof.
  destruct (reads_ignore_ownership quiet (as_team reds "p1" ∅) db
              (mkIdentity (JsString blues))) as [Hlist Hone].
  split.
  - apply Hlist. reflexivity.
  - apply (Hone p1). reflexivity.
Defined.

Definition new_body : Request := as_team reds "p1" {["body" := JsString "new"]}.

Lemma update_frame_witness :
  teams (snd (put_api_posts_id quiet new_body db)) = teams db ∧
  ∀ k, option_Forall2 (kept new_body)
         (posts db !! k) (posts (snd (put_api_posts_id quiet new_body db)) !! k).
Proof.
  apply (update_frame quiet new_body db).
  unfold wf_posts. refine (bool_decide_unpack _ _). vm_compute. exact I.
Defined.

Lemma token_expiry_witness :
  ∃ tok,
    returnToken quiet reds_team db = (inr (res_json (JToken tok)), db) ∧
    iat (claims tok) = now db `div` 1000 ∧
    exp (claims tok) = Some (iat (claims tok) + 10 * 60 * 60).
Proof. apply (token_expiry quiet reds_team db "s3cret"). reflexivity. Defined.
End Scenario.

(** * The rest of the endpoints *)

(** ** What each handler does to the database *)

Section Effects.
Variable P : Platform.

Lemma strict_neq_same (a : JsValue) : js_strict_neq a a = false.
Proof. unfold js_strict_neq. rewrite bool_decide_eq_true_2; reflexivity. Qed.

Lemma strict_neq_false (a b : JsValue) : js_strict_neq a b = false → b = a.
Proof.
  unfold js_strict_neq. intros H. apply negb_false_iff in H.
  apply bool_decide_eq_true_1 in H. congruence.
Qed.

(** Registration and login hand the world back as they got it. *)
Lemma post_api_team_world req w : snd (post_api_team P req w) = w.
Proof.
  unfold post_api_team.
  destruct (validationResult (team_checks P) req); reflexivity.
Qed.

Lemma post_api_registration_world req w : snd (post_api_registration P req w) = w.
Proof.
  unfold post_api_registration.
  destruct (validationResult (registration_checks P) req); reflexivity.
Qed.

(** Creating a post writes to the console at most. *)
Lemma post_api_posts_world req w :
  let w' := snd (post_api_posts P req w) in
  teams w' = teams w ∧ posts w' = posts w.
Proof.
  unfold post_api_posts.
  destruct (validationResult (post_checks P) req); simpl; auto.
Qed.

Lemma get_api_posts_world req w :
  let w' := snd (get_api_posts P req w) in
  teams w' = teams w ∧ posts w' = posts w ∧ now w' = now w ∧ fresh w' = fresh w.
Proof.
  unfold get_api_posts, try_catch, bind, Post_find_sorted, await_store.
  destruct (store_fault P OpPostFind); simpl; auto.
Qed.

Lemma get_api_posts_id_world req w :
  let w' := snd (get_api_posts_id P req w) in
  teams w' = teams w ∧ posts w' = posts w ∧ now w' = now w ∧ fresh w' = fresh w.
Proof.
  unfold get_api_posts_id, try_catch, bind. rewrite Post_findById_run.
  destruct (store_fault P (OpPostFindById (req_params_id req))); simpl; [auto |].
  destruct (posts w !! req_params_id req); simpl; auto.
Qed.

(** A delete either leaves both collections as they are or, for the owner,
    removes the post it looked up. *)
Lemma delete_api_posts_id_world req w :
  let w' := snd (delete_api_posts_id P req w) in
  teams w' = teams w ∧
  (posts w' = posts w ∨
   ∃ post, posts w !! req_params_id req = Some post ∧
           identity_id (req_team req) = JsString (post_team post) ∧
           posts w' = delete (post_id post) (posts w)).
Proof.
  unfold delete_api_posts_id, try_catch, bind.
  rewrite Post_findById_run.
  destruct (store_fault P (OpPostFindById (req_params_id req))); simpl; [auto |].
  destruct (posts w !! req_params_id req) as [post|] eqn:Hpost; simpl; [| auto].
  destruct (js_strict_neq _ _) eqn:Hown; simpl; [auto |].
  apply strict_neq_false in Hown.
  unfold Post_remove, await_store; simpl.
  destruct (store_fault P (OpPostRemove (post_id post))); simpl; [auto |].
  split; [reflexivity |]. right. exists post. auto.
Qed.
End Effects.

(** ** The endpoints that never reach the database *)

Section DeadEnds.
Variable P : Platform.

(** X1. GET /api/auth answers every request with 500 "Unknown server error",
    and POST /api/posts answers 400 with the errors when validation fails
    and 500 "Server error" otherwise, logging the reference error: both read
    [team] inside the declaration of their own [team], so neither looks the
    team up and no post is ever stored. *)
Theorem team_lookup_endpoints_fail (req : Request) (w : World) :
  get_api_auth P req w = (inr (500, JTeamText "Unknown server error"), w) ∧
  post_api_posts P req w =
    let errors := validationResult (post_checks P) req in
    if isEmpty errors
    then (inr (res_status 500 (JText "Server error")),
          log_error (ReferenceError "team") w)
    else (inr (res_status 400 (JErrors errors)), w).
Proof.
  split; [reflexivity |].
  unfold post_api_posts.
  destruct (validationResult (post_checks P) req); reflexivity.
Qed.
End DeadEnds.

(** ** The database over a run of requests *)

(** [w'] holds no team and no post that [w] does not hold, and the posts
    it holds have the owner and the date they have in [w]. *)
Definition descends (w w' : World) : Prop :=
  teams w' = teams w ∧
  ∀ k p', posts w' !! k = Some p' →
          ∃ p, posts w !! k = Some p ∧
               post_team p' = post_team p ∧ post_date p' = post_date p.

Section Runs.
Variable P : Platform.

Lemma descends_refl w : descends w w.
Proof. split; [reflexivity |]. intros k p' H. exists p'. auto. Qed.

Lemma descends_trans w1 w2 w3 : descends w1 w2 → descends w2 w3 → descends w1 w3.
Proof.
  intros [Ht12 Hp12] [Ht23 Hp23]. split; [congruence |].
  intros k p3 H3.
  destruct (Hp23 k p3 H3) as (p2 & H2 & Hteam & Hdate).
  destruct (Hp12 k p2 H2) as (p1 & H1 & Hteam' & Hdate').
  exists p1. repeat split; [exact H1 | congruence | congruence].
Qed.

Lemma descends_same w w' :
  teams w' = teams w → posts w' = posts w → descends w w'.
Proof.
  intros Ht Hp. split; [exact Ht |]. rewrite Hp.
  intros k p' H. exists p'. auto.
Qed.

(** One request: the invariant of the post collection is kept and the
    world descends from the one before. *)
Lemma serve_step r req w :
  wf_posts w → wf_posts (serve P r req w) ∧ descends w (serve P r req w).
Proof.
  intros Hwf. destruct r; simpl.
  - rewrite post_api_team_world. split; [exact Hwf | apply descends_refl].
  - split; [exact Hwf | apply descends_refl].
  - rewrite post_api_registration_world. split; [exact Hwf | apply descends_refl].
  - destruct (post_api_posts_world P req w) as [Ht Hp].
    split; [unfold wf_posts; rewrite Hp; exact Hwf | apply descends_same; assumption].
  - destruct (get_api_posts_world P req w) as (Ht & Hp & _).
    split; [unfold wf_posts; rewrite Hp; exact Hwf | apply descends_same; assumption].
  - destruct (get_api_posts_id_world P req w) as (Ht & Hp & _).
    split; [unfold wf_posts; rewrite Hp; exact Hwf | apply descends_same; assumption].
  - split; [apply delete_api_posts_id_wf, Hwf |].
    destruct (delete_api_posts_id_world P req w) as [Ht [Hp | (post & _ & _ & Hp)]].
    + apply descends_same; assumption.
    + split; [exact Ht |]. rewrite Hp. intros k p' H.
      apply lookup_delete_Some in H as [_ H]. exists p'. auto.
  - split; [apply put_api_posts_id_wf, Hwf |].
    destruct (put_api_posts_id_world P req w) as [Ht [Hp | (post & Hpost & Hp)]].
    + apply descends_same; assumption.
    + split; [exact Ht |]. rewrite Hp. intros k p' H.
      apply lookup_insert_Some in H as [[<- <-] | [_ H]].
      * pose proof (Hwf _ _ Hpost) as Hid. simpl in Hid.
        exists post. rewrite Hid. auto.
      * exists p'. auto.
Qed.

(** X2. Whatever requests are served, in whatever order, no team and no post
    is ever added, and no post changes its owner or its date: the database
    can only lose posts and have their texts rewritten.  Posts stay stored
    under their own ids throughout. *)
Theorem database_never_grows (requests : list (Route * Request)) (w : World) :
  wf_posts w →
  let w' := serve_all P requests w in
  wf_posts w' ∧
  teams w' = teams w ∧
  dom (posts w') ⊆ dom (posts w) ∧
  ∀ k p', posts w' !! k = Some p' →
          ∃ p, posts w !! k = Some p ∧
               post_team p' = post_team p ∧ post_date p' = post_date p.
Proof.
  intros Hwf w'. subst w'.
  assert (H : wf_posts (serve_all P requests w) ∧ descends w (serve_all P requests w)).
  { revert w Hwf. induction requests as [| [r req] rest IH]; intros w Hwf; simpl.
    - split; [exact Hwf | apply descends_refl].
    - destruct (serve_step r req w Hwf) as [Hwf1 Hd1].
      destruct (IH _ Hwf1) as [Hwf2 Hd2].
      split; [exact Hwf2 | exact (descends_trans _ _ _ Hd1 Hd2)]. }
  destruct H as [Hwf' [Ht Hp]].
  split; [exact Hwf' |]. split; [exact Ht |]. split; [| exact Hp].
  intros k Hk. apply elem_of_dom in Hk as [p' Hp'].
  destruct (Hp k p' Hp') as (p & Hk & _).
  apply elem_of_dom. eauto.
Qed.
End Runs.

(** ** The owner's requests *)

Section Owner.
Variable P : Platform.

Lemma js_or_idem (a b : JsValue) : js_or a (js_or a b) = js_or a b.
Proof. unfold js_or. destruct (truthy a); reflexivity. Qed.

Lemma updated_idem req post : updated req (updated req post) = updated req post.
Proof. unfold updated; simpl. rewrite !js_or_idem. reflexivity. Qed.

(** X3. The owner's delete, with the driver up, answers "Post removed" and
    takes the post out of the collection; from then on reading it and
    deleting it again answer 404 "Post not found". *)
Theorem owner_delete_then_gone (req : Request) (w : World) (post : Post) :
  wf_posts w →
  posts w !! req_params_id req = Some post →
  identity_id (req_team req) = JsString (post_team post) →
  store_fault P (OpPostFindById (req_params_id req)) = false →
  store_fault P (OpPostRemove (req_params_id req)) = false →
  let w' := set_posts (delete (req_params_id req)) w in
  delete_api_posts_id P req w = (inr (res_json (JMsg "Post removed")), w') ∧
  get_api_posts_id P req w' = (inr (res_status 404 (JMsg "Post not found")), w') ∧
  delete_api_posts_id P req w' = (inr (res_status 404 (JMsg "Post not found")), w').
Proof.
  intros Hwf Hpost Hown Hfind Hremove w'.
  pose proof (Hwf _ _ Hpost) as Hid. simpl in Hid.
  assert (Hgone : Post_findById P (req_params_id req) w' = (inr None, w')).
  { rewrite Post_findById_run, Hfind. subst w'. simpl.
    rewrite lookup_delete_eq. reflexivity. }
  assert (Hthere : Post_findById P (req_params_id req) w = (inr (Some post), w)).
  { rewrite Post_findById_run, Hfind, Hpost. reflexivity. }
  split; [| split].
  - run_lookup Hthere. rewrite Hown, strict_neq_same; simpl.
    unfold Post_remove, await_store. rewrite Hid, Hremove. reflexivity.
  - run_lookup Hgone. reflexivity.
  - run_lookup Hgone. reflexivity.
Qed.

(** X4. The owner's update, with the driver up, answers with the post as
    written back, a title or body being replaced by what the request gives
    when that is truthy; reading the post afterwards returns the same post,
    and sending the update a second time changes nothing more. *)
Theorem owner_update_round_trip (req : Request) (w : World) (post : Post) :
  wf_posts w →
  posts w !! req_params_id req = Some post →
  identity_id (req_team req) = JsString (post_team post) →
  store_fault P (OpPostFindById (req_params_id req)) = false →
  store_fault P (OpPostSave (req_params_id req)) = false →
  let saved := updated req post in
  let w' := set_posts (insert (req_params_id req) saved) w in
  put_api_posts_id P req w = (inr (res_json (JPost saved)), w') ∧
  get_api_posts_id P req w' = (inr (res_json (JPost saved)), w') ∧
  put_api_posts_id P req w' = (inr (res_json (JPost saved)), w') ∧
  (truthy (field "title" (req_body req)) = true →
     post_title saved = field "title" (req_body req)) ∧
  (truthy (field "body" (req_body req)) = true →
     post_body saved = field "body" (req_body req)).
Proof.
  intros Hwf Hpost Hown Hfind Hsave.
  pose proof (Hwf _ _ Hpost) as Hid. simpl in Hid.
  destruct req as [fields i who query headers].
  cbn [req_params_id req_body req_team] in *. subst i.
  set (saved := updated (mkRequest fields (post_id post) who query headers) post).
  set (w' := set_posts (insert (post_id post) saved) w).
  assert (Hthere : Post_findById P (post_id post) w = (inr (Some post), w)).
  { rewrite Post_findById_run, Hfind, Hpost. reflexivity. }
  assert (Hnow : Post_findById P (post_id post) w' = (inr (Some saved), w')).
  { rewrite Post_findById_run, Hfind. subst w'. simpl.
    rewrite lookup_insert_eq. reflexivity. }
  split; [| split; [| split; [| split]]].
  - run_lookup Hthere. rewrite Hown, strict_neq_same; simpl.
    unfold Post_save, await_store; simpl. rewrite Hsave. reflexivity.
  - run_lookup Hnow. reflexivity.
  - run_lookup Hnow. rewrite Hown, strict_neq_same; simpl.
    unfold Post_save, await_store; simpl. rewrite Hsave; simpl.
    change (mkPost (post_id post) (post_team post)
              (js_or (field "title" fields) (js_or (field "title" fields) (post_title post)))
              (js_or (field "body" fields) (js_or (field "body" fields) (post_body post)))
              (post_date post))
      with (updated (mkRequest fields (post_id post) who query headers) saved).
    unfold saved. rewrite updated_idem.
    unfold w', set_posts; simpl. rewrite insert_insert_eq. reflexivity.
  - intros Ht. subst saved. unfold updated, js_or; simpl. rewrite Ht. reflexivity.
  - intros Hb. subst saved. unfold updated, js_or; simpl. rewrite Hb. reflexivity.
Qed.

(** X5. A title that is not truthy (absent, null, false, 0 or the empty
    string) is not written: after such an update request every stored title
    is what it was; the same for the body.  A post's text cannot be
    blanked. *)
Theorem falsy_text_is_ignored (req : Request) (w : World) :
  wf_posts w →
  let w' := snd (put_api_posts_id P req w) in
  (truthy (field "title" (req_body req)) = false →
     ∀ k, post_title <$> posts w' !! k = post_title <$> posts w !! k) ∧
  (truthy (field "body" (req_body req)) = false →
     ∀ k, post_body <$> posts w' !! k = post_body <$> posts w !! k).
Proof.
  intros Hwf w'.
  destruct (put_api_posts_id_world P req w) as [_ Hposts]. fold w' in Hposts.
  assert (Hcase : ∀ (get : Post → JsValue),
            (∀ post, get (updated req post) = get post) →
            ∀ k, get <$> posts w' !! k = get <$> posts w !! k).
  { intros get Hget k.
    destruct Hposts as [-> | (post & Hpost & ->)]; [reflexivity |].
    pose proof (Hwf _ _ Hpost) as Hid. simpl in Hid.
    destruct (decide (post_id post = k)) as [<- | Hk].
    - rewrite lookup_insert_eq, Hid, Hpost. simpl. rewrite Hget. reflexivity.
    - rewrite lookup_insert_ne by exact Hk. reflexivity. }
  split; intros Hfalsy; apply Hcase; intros post;
    unfold updated, js_or; simpl; rewrite Hfalsy; reflexivity.
Qed.

(** X6. A delete request never changes a post: each stored post is afterwards
    as it was, except the one the request names, which is gone when the
    requester owns it and everything else went well. *)
Theorem delete_touches_one_post (req : Request) (w : World) :
  wf_posts w →
  let w' := snd (delete_api_posts_id P req w) in
  ∀ k, posts w' !! k = posts w !! k ∨
       (k = req_params_id req ∧ posts w' !! k = None ∧
        ∃ post, posts w !! k = Some post ∧
                identity_id (req_team req) = JsString (post_team post)).
Proof.
  intros Hwf w' k.
  destruct (delete_api_posts_id_world P req w) as [_ Hposts]. fold w' in Hposts.
  destruct Hposts as [-> | (post & Hpost & Hown & ->)]; [left; reflexivity |].
  pose proof (Hwf _ _ Hpost) as Hid. simpl in Hid.
  destruct (decide (post_id post = k)) as [Hk | Hk].
  - right. rewrite <- Hk, lookup_delete_eq, Hid.
    split; [reflexivity |]. split; [reflexivity |]. exists post. auto.
  - left. rewrite lookup_delete_ne by exact Hk. reflexivity.
Qed.
End Owner.

(** ** Answers and the log *)

(** A handler answered: it sent a response rather than let the exception
    out, and either that response is the 500 "Server error" and one error
    was written to the console, or it is no 500 and the console is as it
    was. *)
Definition answered (before : World) (out : (Exn + Response) * World) : Prop :=
  ∃ r, fst out = inr r ∧
       ((r = server_error ∧ ∃ e, console (snd out) = (console before ++ [e])%list) ∨
        (status r ≠ 500 ∧ console (snd out) = console before)).

Section Answers.
Variable P : Platform.

Lemma answered_logged before e :
  answered before (log_and_fail e before).
Proof. exists server_error. split; [reflexivity |]. left. eauto. Qed.

Lemma answered_plain before (c : Z) (j : Json) :
  c ≠ 500 → answered before (inr (res_status c j), before).
Proof. intros Hc. eexists. split; [reflexivity |]. right. auto. Qed.

(** X7. The five post endpoints answer every request: no exception leaves a
    handler, every 500 comes with exactly one line on the console, and
    nothing is written to the console otherwise. *)
Theorem post_endpoints_always_answer (req : Request) (w : World) :
  answered w (post_api_posts P req w) ∧
  answered w (get_api_posts P req w) ∧
  answered w (get_api_posts_id P req w) ∧
  answered w (delete_api_posts_id P req w) ∧
  answered w (put_api_posts_id P req w).
Proof.
  repeat split.
  - unfold post_api_posts.
    destruct (validationResult (post_checks P) req); simpl.
    + apply answered_logged.
    + apply answered_plain. lia.
  - unfold get_api_posts, try_catch, bind, Post_find_sorted, await_store.
    destruct (store_fault P OpPostFind); simpl.
    + apply answered_logged.
    + apply answered_plain. lia.
  - unfold get_api_posts_id, try_catch, bind. rewrite Post_findById_run.
    destruct (store_fault P (OpPostFindById (req_params_id req))); simpl;
      [apply answered_logged |].
    destruct (posts w !! req_params_id req); simpl; apply answered_plain; lia.
  - unfold delete_api_posts_id, try_catch, bind. rewrite Post_findById_run.
    destruct (store_fault P (OpPostFindById (req_params_id req))); simpl;
      [apply answered_logged |].
    destruct (posts w !! req_params_id req) as [post|]; simpl;
      [| apply answered_plain; lia].
    destruct (js_strict_neq _ _); simpl; [apply answered_plain; lia |].
    unfold Post_remove, await_store.
    destruct (store_fault P (OpPostRemove (post_id post))); simpl.
    + apply answered_logged.
    + eexists. split; [reflexivity |]. right. split; [simpl; lia | reflexivity].
  - unfold put_api_posts_id, try_catch, bind. rewrite Post_findById_run.
    destruct (store_fault P (OpPostFindById (req_params_id req))); simpl;
      [apply answered_logged |].
    destruct (posts w !! req_params_id req) as [post|]; simpl;
      [| apply answered_plain; lia].
    destruct (js_strict_neq _ _); simpl; [apply answered_plain; lia |].
    unfold Post_save, await_store; simpl.
    destruct (store_fault P (OpPostSave (post_id post))); simpl.
    + apply answered_logged.
    + eexists. split; [reflexivity |]. right. split; [simpl; lia | reflexivity].
Qed.

Lemma get_api_posts_answer req w1 w2 :
  posts w1 = posts w2 →
  fst (get_api_posts P req w1) = fst (get_api_posts P req w2).
Proof.
  intros H. unfold get_api_posts, try_catch, bind, Post_find_sorted, await_store.
  destruct (store_fault P OpPostFind); simpl; [reflexivity |]. rewrite H. reflexivity.
Qed.

Lemma get_api_posts_id_answer req w1 w2 :
  posts w1 = posts w2 →
  fst (get_api_posts_id P req w1) = fst (get_api_posts_id P req w2).
Proof.
  intros H. unfold get_api_posts_id, try_catch, bind. rewrite !Post_findById_run.
  destruct (store_fault P (OpPostFindById (req_params_id req))); simpl; [reflexivity |].
  rewrite H. destruct (posts w2 !! req_params_id req); reflexivity.
Qed.

(** X8. Reads do not write: GET /api/posts and GET /api/posts/:id leave both
    collections, the clock and the id counter as they were, so that a read
    repeated after any number of reads gets the same answer. *)
Theorem reads_do_not_write (req req' : Request) (w : World) :
  let after_list := snd (get_api_posts P req w) in
  let after_one := snd (get_api_posts_id P req w) in
  (teams after_list = teams w ∧ posts after_list = posts w ∧
   now after_list = now w ∧ fresh after_list = fresh w) ∧
  (teams after_one = teams w ∧ posts after_one = posts w ∧
   now after_one = now w ∧ fresh after_one = fresh w) ∧
  fst (get_api_posts P req' after_list) = fst (get_api_posts P req' w) ∧
  fst (get_api_posts P req' after_one) = fst (get_api_posts P req' w) ∧
  fst (get_api_posts_id P req' after_list) = fst (get_api_posts_id P req' w) ∧
  fst (get_api_posts_id P req' after_one) = fst (get_api_posts_id P req' w).
Proof.
  intros after_list after_one.
  pose proof (get_api_posts_world P req w) as Hl.
  pose proof (get_api_posts_id_world P req w) as Ho.
  fold after_list in Hl. fold after_one in Ho.
  split; [exact Hl |]. split; [exact Ho |].
  destruct Hl as (_ & Hl & _). destruct Ho as (_ & Ho & _).
  repeat split;
    first [ apply get_api_posts_answer | apply get_api_posts_id_answer ];
    assumption.
Qed.
End Answers.

(** ** What validation turns away *)

Section Validation.
Variable P : Platform.

(** X9. A request that has no name in its body, its query string or its
    headers is turned away with 422 by registration and by login, the name
    message first in the list of errors. *)
Theorem nameless_request_rejected (req : Request) (w : World) :
  field "name" (req_body req) = JsUndefined →
  field "name" (req_query req) = JsUndefined →
  field "name" (req_headers req) = JsUndefined →
  (∃ rest, post_api_team P req w =
     (inr (res_status 422 (JErrors
        (mkValidationError "Please enter your name of soccer team" "name" :: rest))), w)) ∧
  (∃ rest, post_api_registration P req w =
     (inr (res_status 422 (JErrors
        (mkValidationError "Please enter other name , it already exist" "name" :: rest))), w)).
Proof.
  intros Hbody Hquery Hheaders.
  pose proof (absent_instance req "name" Hbody Hquery Hheaders) as Hone.
  assert (Hteam : ∃ rest, validationResult (team_checks P) req =
            mkValidationError "Please enter your name of soccer team" "name" :: rest).
  { unfold validationResult, team_checks.
    cbn [fmap list_fmap concat]. unfold run_check at 1.
    cbn [check_passes check_field check_message]. rewrite Hone.
    eexists. reflexivity. }
  assert (Hlogin : ∃ rest, validationResult (registration_checks P) req =
            mkValidationError "Please enter other name , it already exist" "name" :: rest).
  { unfold validationResult, registration_checks.
    cbn [fmap list_fmap concat]. unfold run_check at 1.
    cbn [check_passes check_field check_message]. rewrite Hone.
    eexists. reflexivity. }
  destruct Hteam as [rest1 Hteam]. destruct Hlogin as [rest2 Hlogin].
  split.
  - exists rest1. rewrite <- Hteam.
    eapply post_api_team_rejects. rewrite Hteam. apply list_elem_of_here.
  - exists rest2. rewrite <- Hlogin.
    eapply post_api_registration_rejects. rewrite Hlogin. apply list_elem_of_here.
Qed.

(** X10. Registration turns away every request whose body has a players
    field that, written as a string, measures fewer than 13 characters,
    whatever the query string and the headers hold: the field is measured,
    not counted.  The answer is 422 and lists the players message. *)
Theorem short_players_rejected (req : Request) (w : World) :
  field "players" (req_body req) ≠ JsUndefined →
  (validator_length P (js_toString P (field "players" (req_body req))) < 13)%nat →
  ∃ errors,
    post_api_team P req w = (inr (res_status 422 (JErrors errors)), w) ∧
    mkValidationError "Please enter number of players, must be at least 13"
      "players" ∈ errors.
Proof.
  intros Hbody Hshort.
  set (players := mkCheck "players"
         "Please enter number of players, must be at least 13" (isLength P 13)).
  assert (Herror : mkValidationError (check_message players) (check_field players)
                     ∈ validationResult (team_checks P) req).
  { apply (failing_instance req (team_checks P) players
             (field "players" (req_body req))).
    - unfold team_checks. set_solver.
    - apply (body_instance req "players"), Hbody.
    - simpl. unfold isLength. apply bool_decide_eq_false_2. lia. }
  eexists. split; [exact (post_api_team_rejects P req w _ Herror) | exact Herror].
Qed.
End Validation.

(** ** The identity of an issued token *)

Section Issued.
Variable P : Platform.

Lemma returnToken_payload user w0 tok w1 :
  returnToken P user w0 = (inr (res_json (JToken tok)), w1) →
  claim_team (claims tok) = mkIdentity (model_id P).
Proof.
  intros H. destruct (jwtSecret P) as [key|] eqn:Hkey.
  - rewrite (returnToken_run P user w0 key Hkey) in H. simpl in H.
    injection H as <- _. reflexivity.
  - unfold returnToken, config_get_jwtSecret, bind in H. rewrite Hkey in H.
    discriminate H.
Qed.

(** X11. When the model's [id] is not a string, the identity carried by a token
    that [returnToken] issued owns no post: a delete or update request made
    under it is answered 401, 404 or 500 and leaves every post as it was. *)
Theorem issued_identity_cannot_mutate
    (user : TeamDoc) (w0 w1 : World) (tok : Token) (req : Request) (w : World) :
  (∀ s, model_id P ≠ JsString s) →
  returnToken P user w0 = (inr (res_json (JToken tok)), w1) →
  req_team req = claim_team (claims tok) →
  (∃ r, fst (delete_api_posts_id P req w) = inr r ∧
        (status r = 401 ∨ status r = 404 ∨ status r = 500)) ∧
  (∃ r, fst (put_api_posts_id P req w) = inr r ∧
        (status r = 401 ∨ status r = 404 ∨ status r = 500)) ∧
  posts (snd (delete_api_posts_id P req w)) = posts w ∧
  posts (snd (put_api_posts_id P req w)) = posts w.
Proof.
  intros Hmodel Hissue Hteam.
  apply returnToken_payload in Hissue. rewrite Hissue in Hteam.
  assert (Hneq : ∀ post, js_strict_neq (JsString (post_team post))
                           (identity_id (req_team req)) = true).
  { intros post. apply strict_neq_true. rewrite Hteam. simpl. apply Hmodel. }
  unfold delete_api_posts_id, put_api_posts_id, try_catch, bind.
  rewrite Post_findById_run.
  destruct (store_fault P (OpPostFindById (req_params_id req))); simpl.
  { repeat split; try (eexists; split; [reflexivity | simpl; auto]). }
  destruct (posts w !! req_params_id req) as [post|]; simpl.
  - rewrite Hneq; simpl.
    repeat split; try (eexists; split; [reflexivity | simpl; auto]).
  - repeat split; try (eexists; split; [reflexivity | simpl; auto]).
Qed.
End Issued.

(** ** The properties above, on the sample database *)

Module Walkthrough.
Import Sample.

Definition delete_p1 : Request := as_team reds "p1" ∅.
Definition retitle_p1 : Request := as_team reds "p1" {["title" := JsString "T"]}.
Definition blank_p1 : Request := as_team reds "p1" {["title" := JsString ""]}.
Definition nameless : Request := as_team reds "" {["city" := JsString "Madison"]}.
Definition thirteen : Request := as_team reds "" reds_13.

Definition session : list (Route * Request) :=
  [ (POST_api_team, thirteen); (POST_api_posts, retitle_p1);
    (PUT_api_posts_id, retitle_p1); (GET_api_posts, delete_p1);
    (DELETE_api_posts_id, delete_p1) ].

Definition issued : Token :=
  mkToken (mkClaims (mkIdentity JsUndefined) 1700000000 (Some 1700036000))
    "s3cret:1700000000".

(** What validation looks at: a name in the query string stands in for a
    name the body lacks; a number from 1e21 on is measured in its exponent
    form; a string is measured in characters. *)
Definition login_by_query : Request :=
  mkRequest ∅ "" (mkIdentity JsUndefined) {["name" := JsString "Reds"]} ∅.

Definition players_are (v : JsValue) : Request :=
  as_team reds ""
    (<["name" := JsString "Reds"]>
       (<["city" := JsString "Madison"]> {["players" := v]})).

(** The status of the response, if one was sent. *)
Definition answer (out : (Exn + Response) * World) : option Z :=
  match fst out with
  | inr r => Some (status r)
  | inl _ => None
  end.

Example name_in_query_counts :
  validationResult (registration_checks quiet) login_by_query = [] ∧
  post_api_registration quiet login_by_query db = (inr server_error, db).
Proof. split; reflexivity. Qed.

Example large_number_is_short :
  js_toString quiet (JsNumber (10 ^ 21)) = "1e+21" ∧
  answer (post_api_team quiet (players_are (JsNumber (10 ^ 21))) db) = Some 422.
Proof. split; vm_compute; reflexivity. Qed.

Example accents_count_once :
  answer (post_api_team quiet (players_are (JsString "ééééééé")) db) = Some 422 ∧
  answer (post_api_team quiet (players_are (JsString "1234567890123")) db) = Some 500.
Proof. split; vm_compute; reflexivity. Qed.

Ltac sample_wf := unfold wf_posts; refine (bool_decide_unpack _ _); vm_compute; exact I.

Lemma database_never_grows_witness :
  let w' := serve_all quiet session db in
  wf_posts w' ∧
  teams w' = teams db ∧
  dom (posts w') ⊆ dom (posts db) ∧
  ∀ k p', posts w' !! k = Some p' →
          ∃ p, posts db !! k = Some p ∧
               post_team p' = post_team p ∧ post_date p' = post_date p.
Proof. apply (database_never_grows quiet session db). sample_wf. Defined.

Lemma owner_delete_then_gone_witness :
  let w' := set_posts (delete "p1") db in
  delete_api_posts_id quiet delete_p1 db = (inr (res_json (JMsg "Post removed")), w') ∧
  get_api_posts_id quiet delete_p1 w' = (inr (res_status 404 (JMsg "Post not found")), w') ∧
  delete_api_posts_id quiet delete_p1 w' = (inr (res_status 404 (JMsg "Post not found")), w').
Proof.
  apply (owner_delete_then_gone quiet delete_p1 db p1);
    first [ reflexivity | sample_wf ].
Defined.

Lemma owner_update_round_trip_witness :
  let saved := updated retitle_p1 p1 in
  let w' := set_posts (insert "p1" saved) db in
  put_api_posts_id quiet retitle_p1 db = (inr (res_json (JPost saved)), w') ∧
  get_api_posts_id quiet retitle_p1 w' = (inr (res_json (JPost saved)), w') ∧
  put_api_posts_id quiet retitle_p1 w' = (inr (res_json (JPost saved)), w') ∧
  (truthy (field "title" (req_body retitle_p1)) = true →
     post_title saved = field "title" (req_body retitle_p1)) ∧
  (truthy (field "body" (req_body retitle_p1)) = true →
     post_body saved = field "body" (req_body retitle_p1)).
Proof.
  apply (owner_update_round_trip quiet retitle_p1 db p1);
    first [ reflexivity | sample_wf ].
Defined.

Lemma falsy_text_is_ignored_witness :
  post_title <$> posts (snd (put_api_posts_id quiet blank_p1 db)) !! "p1"
  = post_title <$> posts db !! "p1".
Proof.
  refine (proj1 (falsy_text_is_ignored quiet blank_p1 db _) _ "p1").
  - sample_wf.
  - reflexivity.
Defined.

Lemma delete_touches_one_post_witness :
  posts (snd (delete_api_posts_id quiet delete_p1 db)) !! "p3" = posts db !! "p3" ∨
  ("p3" = "p1" ∧ posts (snd (delete_api_posts_id quiet delete_p1 db)) !! "p3" = None ∧
   ∃ post, posts db !! "p3" = Some post ∧
           JsString reds = JsString (post_team post)).
Proof.
  refine (delete_touches_one_post quiet delete_p1 db _ "p3"). sample_wf.
Defined.

Lemma nameless_request_rejected_witness :
  (∃ rest, post_api_team quiet nameless db =
     (inr (res_status 422 (JErrors
        (mkValidationError "Please enter your name of soccer team" "name" :: rest))), db)) ∧
  (∃ rest, post_api_registration quiet nameless db =
     (inr (res_status 422 (JErrors
        (mkValidationError "Please enter other name , it already exist" "name" :: rest))), db)).
Proof. apply (nameless_request_rejected quiet nameless db); reflexivity. Defined.

Lemma short_players_rejected_witness :
  ∃ errors,
    post_api_team quiet thirteen db = (inr (res_status 422 (JErrors errors)), db) ∧
    mkValidationError "Please enter number of players, must be at least 13"
      "players" ∈ errors.
Proof.
  apply (short_players_rejected quiet thirteen db).
  - intros H. vm_compute in H. discriminate H.
  - vm_compute. lia.
Defined.

Lemma issued_identity_cannot_mutate_witness :
  (∃ r, fst (delete_api_posts_id quiet (mkRequest ∅ "p1" (claim_team (claims issued)) ∅ ∅) db)
          = inr r ∧
        (status r = 401 ∨ status r = 404 ∨ status r = 500)) ∧
  (∃ r, fst (put_api_posts_id quiet (mkRequest ∅ "p1" (claim_team (claims issued)) ∅ ∅) db)
          = inr r ∧
        (status r = 401 ∨ status r = 404 ∨ status r = 500)) ∧
  posts (snd (delete_api_posts_id quiet (mkRequest ∅ "p1" (claim_team (claims issued)) ∅ ∅) db))
    = posts db ∧
  posts (snd (put_api_posts_id quiet (mkRequest ∅ "p1" (claim_team (claims issued)) ∅ ∅) db))
    = posts db.
Proof.
  apply (issued_identity_cannot_mutate quiet Scenario.reds_team db db issued
           (mkRequest ∅ "p1" (claim_team (claims issued)) ∅ ∅) db).
  - intros s. discriminate.
  - reflexivity.
  - reflexivity.
Defined.
End Walkthrough.
